(** * The Pea and Pod factories of [jina/peapods/__init__.py]

    The two factory functions pick the class of a runnable unit from the
    [host] and [image] attributes of its parsed arguments.  Both reset a
    non-default host in place when [allow_remote] is off and log a warning.

    The embedding keeps what the caller can observe of one call: the value
    returned or the exception raised, the argument object as the in-place
    assignments left it, and the records handed to [default_logger]. *)

From stdpp Require Import base strings list gmap.

Open Scope string_scope.
Open Scope list_scope.

(** ** Data *)

(** An [argparse.Namespace].  The factories read [host] and [image] and pass
    every other attribute along untouched; those are kept as name/value
    pairs. *)
Record Namespace := mkNamespace {
  host : string;
  image : option string;
  others : list (string * string);
}.

(** The assignment [args.host = h]. *)
Definition set_host (h : string) (args : Namespace) : Namespace :=
  mkNamespace h (image args) (others args).

(** Truth value of [args.image]: [None] and the empty string are false. *)
Definition truthy_image (i : option string) : bool :=
  match i with
  | None => false
  | Some s => negb (String.eqb s "")
  end.

(** A value of the dict given to [Pod]: [None], one namespace, or a list of
    namespaces.  Every namespace in a dict is taken to be an object of its
    own: were one object listed twice, its second visit would find the host
    already reset and log nothing, which changes the number of warnings
    but neither the hosts collected nor the value returned. *)
Inductive value :=
| PyNone
| One (k : Namespace)
| Many (k : list Namespace).

(** A dict keeps its items in insertion order; [args.values()] walks them
    in that order. *)
Abbreviation Dict := (list (string * value)).

(** [Union['argparse.Namespace', Dict]]. *)
Inductive pod_args :=
| ArgsNamespace (a : Namespace)
| ArgsDict (d : Dict).

(** The classes the factories name.  Their constructors live outside this
    module; an instance is recorded with the argument it was given.
    [RemotePod] is named at line 75 but is not among the names the module
    imports, so no instance of it is ever built here. *)
Inductive handle :=
| RemotePea (args : Namespace)
| ContainerPea (args : Namespace)
| BasePea (args : Namespace)
| RemotePod (args : Namespace)
| BasePod (args : Namespace)
| MutablePod (args : Dict)
| RemoteMutablePod (args : Dict).

(** [AttributeError: '<type>' object has no attribute '<attr>'] and
    [NameError: name '<name>' is not defined]. *)
Inductive exception :=
| AttributeError (type attr : string)
| NameError (name : string).

Inductive outcome :=
| Return (h : handle)
| Raise (e : exception).

(** A record sent to [default_logger]. *)
Inductive log_record :=
| warning (msg : string).

(** The two parsers of [jina.main.parser]. *)
Inductive parser := set_pea_parser | set_pod_parser.

(** What one call of [Pea] leaves behind. *)
Record Pea_result := mkPea {
  Pea_ret : handle;
  Pea_args : Namespace;
  Pea_log : list log_record;
}.

(** What one call of [Pod] leaves behind. *)
Record Pod_result := mkPod {
  Pod_ret : outcome;
  Pod_args : pod_args;
  Pod_log : list log_record;
}.

(** Truth value of a dict value [k] in [if k:]. *)
Definition truthy_value (k : value) : bool :=
  match k with
  | PyNone => false
  | One _ => true
  | Many l => match l with [] => false | _ => true end
  end.

(** The namespaces the nested loops of [Pod] visit, in order. *)
Definition flatten_value (k : value) : list Namespace :=
  match k with
  | PyNone => []
  | One kk => [kk]
  | Many l => l
  end.

Definition members (d : Dict) : list Namespace :=
  concat (map (fun kv => flatten_value (snd kv)) d).

Definition host_set (d : Dict) : gset string :=
  list_to_set (map host (members d)).

(** The kinds of handle the specification speaks of.  [BasePod] is what
    [Pod] makes of a single namespace, where the specification expects the
    unit kinds; [RemotePod] is classed with the remote unit kind. *)
Inductive kind :=
| LocalWorker
| ContainerizedWorker
| RemoteWorker
| LocalAggregate
| RemoteCoordinatedAggregate.

Definition kind_of (h : handle) : kind :=
  match h with
  | RemotePea _ | RemotePod _ => RemoteWorker
  | ContainerPea _ => ContainerizedWorker
  | BasePea _ | BasePod _ => LocalWorker
  | MutablePod _ => LocalAggregate
  | RemoteMutablePod _ => RemoteCoordinatedAggregate
  end.

Definition kind_of_outcome (o : outcome) : option kind :=
  match o with
  | Return h => Some (kind_of h)
  | Raise _ => None
  end.

(** [needle in haystack] on strings. *)
Definition occurs_in (needle haystack : string) : Prop :=
  is_Some (String.index 0 needle haystack).

(** ** The event streams of [jina/logging/sse.py]

    [_log_stream] and [_profile_stream] are generators: each loops on
    [queue.get()], yields one line per record, and on [EOFError] yields a
    closing line and breaks.  A generator is run here against the results
    of the successive calls of [get] that are at hand. *)

(** What one call of [queue.get()] comes to: a record, whose [msg] is
    taken as the text that [format] makes of it, [EOFError], or another
    exception. *)
Inductive get_result :=
| Message (msg : string)
| EOFError
| OtherError (name : string).

(** Where the generator stands once those results are used up. *)
Inductive generator_state :=
| Blocked                  (* inside [get()], waiting for a record *)
| Stopped                  (* left the loop by [break] *)
| Failed (name : string).  (* an exception other than [EOFError] went through *)

(** The line feed ["\n"]. *)
Definition LF : string := String (Ascii.ascii_of_nat 10) EmptyString.

(** ['data: {}\n\n'.format(message.msg)] *)
Definition data_line (msg : string) : string :=
  "data: " +:+ msg +:+ LF +:+ LF.

Definition LOG_ENDS : string := "LOG ENDS" +:+ LF +:+ LF.

Definition PROFILE_ENDS : string := "PROFILE ENDS" +:+ LF +:+ LF.

Fixpoint _log_stream (gets : list get_result) : list string * generator_state :=
  match gets with
  | [] => ([], Blocked)
  | Message msg :: gets' =>
      let '(lines, st) := _log_stream gets' in (data_line msg :: lines, st)
  | EOFError :: _ => ([LOG_ENDS], Stopped)
  | OtherError e :: _ => ([], Failed e)
  end.

Fixpoint _profile_stream (gets : list get_result) : list string * generator_state :=
  match gets with
  | [] => ([], Blocked)
  | Message msg :: gets' =>
      let '(lines, st) := _profile_stream gets' in (data_line msg :: lines, st)
  | EOFError :: _ => ([PROFILE_ENDS], Stopped)
  | OtherError e :: _ => ([], Failed e)
  end.

(** ** The pod arguments served by [get_podargs] in [jina/logging/sse.py] *)

(** The classes of [argparse] action the loop tells apart.
    [_StoreTrueAction] is not a subclass of [_StoreAction]. *)
Inductive action_class :=
| StoreAction
| StoreTrueAction
| OtherAction.

(** An action of the parser with the attributes the loop reads.  [type] is
    a callable or [None]; its [__name__] is kept. *)
Record Action := mkAction {
  cls : action_class;
  dest : string;
  help : option string;
  choices : option (list string);
  default : option string;
  type : option string;
}.

(** The value stored under [d[a.dest]]: the three attributes of
    [port_attr] and the ['type'] entry. *)
Record podarg := mkPodarg {
  podarg_help : option string;
  podarg_choices : option (list string);
  podarg_default : option string;
  podarg_type : option string;
}.

(** [isinstance(a, _StoreAction) or isinstance(a, _StoreTrueAction)] *)
Definition is_store (a : Action) : bool :=
  match cls a with
  | StoreAction | StoreTrueAction => true
  | OtherAction => false
  end.

(** The value built for one action: a named type if there is one,
    ['bool'] for a store-true action without, [a.type] itself otherwise. *)
Definition podarg_of (a : Action) : podarg :=
  mkPodarg (help a) (choices a) (default a)
    match type a with
    | Some name => Some name
    | None =>
        match cls a with
        | StoreTrueAction => Some "bool"
        | _ => type a
        end
    end.

(** [for a in parser._actions: ...] *)
Definition podargs_loop (actions : list Action) : gmap string podarg :=
  foldl (fun d a => if is_store a then <[dest a := podarg_of a]> d else d)
        ∅ actions.

(** The dict handed to [jsonify]. *)
Record podargs := mkPodargs {
  pod : gmap string podarg;
  version : string;
  usage : string;
}.

(** [get_podargs], given the actions of [set_pod_parser()], [__version__]
    and the text of [parser.format_help()]. *)
Definition get_podargs (actions : list Action) (__version__ format_help : string)
  : podargs :=
  mkPodargs (podargs_loop actions) __version__ format_help.

(** ** Concrete inputs

    The default host is ["0.0.0.0"] unless the environment overrides it.
    Most runs at the end of the file pass their arguments, so the parser is
    not consulted; it is taken to return the defaults. *)

Definition local : string := "0.0.0.0".

Definition parsed_defaults (kwargs : unit) (p : parser) (name : string) : Namespace :=
  mkNamespace local None [].

Definition unit_spec (h : string) (i : option string) : Namespace :=
  mkNamespace h i [].

Definition mixed_group : Dict :=
  [("encoder", Many [unit_spec "10.0.0.2" None; unit_spec "10.0.0.2" None]);
   ("indexer", One (unit_spec "10.0.0.3" None))].

Definition remote_group : Dict :=
  [("encoder", Many [unit_spec "10.0.0.2" None; unit_spec "10.0.0.2" None]);
   ("indexer", Many [unit_spec "10.0.0.2" None])].

Definition empty_group : Dict :=
  [("head", PyNone); ("peas", Many [])].

Definition some_actions : list Action :=
  [mkAction OtherAction "help" (Some "show this help message and exit") None None None;
   mkAction StoreAction "host" (Some "host address") None (Some "0.0.0.0") (Some "str");
   mkAction StoreTrueAction "daemon" (Some "run as a daemon") None (Some "False") None;
   mkAction StoreAction "host" (Some "host address of the pod") None (Some "0.0.0.0") None].

Definition local_group : Dict :=
  [("head", One (unit_spec local None));
   ("peas", Many [unit_spec local None; unit_spec local (Some "img:v1")]);
   ("tail", PyNone)].

Section Factories.

(** [jina.__default_host__], set when the package is imported. *)
Variable default_host : string.

(** Keyword arguments, and the namespace [get_parsed_args] makes of them
    (the middle component of the triple it returns). *)
Variable Kwargs : Type.
Variable get_parsed_args : Kwargs -> parser -> string -> Namespace.

Definition Pea_warning : log_record :=
  warning ("setting host to " +:+ default_host +:+ " as allow_remote set to False").

Definition Pod_warning : log_record :=
  warning ("host is reset to " +:+ default_host +:+ " as allow_remote=False").

Definition Pea (args : option Namespace) (allow_remote : bool) (kwargs : Kwargs)
  : Pea_result :=
  let args :=
    match args with
    | None => get_parsed_args kwargs set_pea_parser "Pea"
    | Some a => a
    end in
  let '(args, log) :=
    if negb allow_remote then
      if bool_decide (host args ≠ default_host)
      then (set_host default_host args, [Pea_warning])
      else (args, [])
    else (args, []) in
  let ret :=
    if bool_decide (host args ≠ default_host) then RemotePea args
    else if truthy_image (image args) then ContainerPea args
    else BasePea args in
  mkPea ret args log.

(** Body of [for kk in k]: reset the host if need be, then
    [hosts.add(kk.host)]. *)
Definition visit (allow_remote : bool) (kk : Namespace) (hosts : gset string)
  : Namespace * gset string * list log_record :=
  let '(kk, log) :=
    if negb allow_remote && bool_decide (host kk ≠ default_host)
    then (set_host default_host kk, [Pod_warning])
    else (kk, []) in
  (kk, hosts ∪ {[ host kk ]}, log).

(** [for kk in k: ...] *)
Fixpoint for_kk (allow_remote : bool) (k : list Namespace) (hosts : gset string)
  : list Namespace * gset string * list log_record :=
  match k with
  | [] => ([], hosts, [])
  | kk :: k' =>
      let '(kk1, hosts1, log1) := visit allow_remote kk hosts in
      let '(k1, hosts2, log2) := for_kk allow_remote k' hosts1 in
      (kk1 :: k1, hosts2, log1 ++ log2)
  end.

(** One round of [for k in args.values()]: skip a false value, wrap a
    lone namespace into a list, walk the list. *)
Definition visit_value (allow_remote : bool) (k : value) (hosts : gset string)
  : value * gset string * list log_record :=
  if truthy_value k then
    match k with
    | PyNone => (PyNone, hosts, [])
    | One kk =>
        (* [k = [k]]: the loop body runs once, on the namespace itself *)
        let '(kk1, hosts1, log1) := visit allow_remote kk hosts in
        (One kk1, hosts1, log1)
    | Many l =>
        let '(l1, hosts1, log1) := for_kk allow_remote l hosts in
        (Many l1, hosts1, log1)
    end
  else (k, hosts, []).

(** [for k in args.values(): ...] *)
Fixpoint for_k (allow_remote : bool) (items : Dict) (hosts : gset string)
  : Dict * gset string * list log_record :=
  match items with
  | [] => ([], hosts, [])
  | (key, k) :: items' =>
      let '(k1, hosts1, log1) := visit_value allow_remote k hosts in
      let '(items1, hosts2, log2) := for_k allow_remote items' hosts1 in
      ((key, k1) :: items1, hosts2, log1 ++ log2)
  end.

(** Lines 70 to 78, which read [args.host].  On a dict the first read
    raises: at line 70 when [allow_remote] is off, at line 74 when it is
    on, where [not allow_remote and ...] has stopped at its left operand.
    On a namespace whose host is still not the default host, line 75
    evaluates the name [RemotePod], which line 11 does not import
    (it imports [RemotePea] and [RemoteMutablePod]): [NameError]. *)
Definition Pod_tail (args : pod_args) (allow_remote : bool) (log0 : list log_record)
  : Pod_result :=
  match args with
  | ArgsDict _ => mkPod (Raise (AttributeError "dict" "host")) args log0
  | ArgsNamespace a =>
      let '(a, log) :=
        if negb allow_remote && bool_decide (host a ≠ default_host)
        then (set_host default_host a, [Pod_warning])
        else (a, []) in
      let ret :=
        if bool_decide (host a ≠ default_host) then Raise (NameError "RemotePod")
        else Return (BasePod a) in
      mkPod ret (ArgsNamespace a) (log0 ++ log)
  end.

Definition Pod (args : option pod_args) (allow_remote : bool) (kwargs : Kwargs)
  : Pod_result :=
  let args :=
    match args with
    | None => ArgsNamespace (get_parsed_args kwargs set_pod_parser "Pod")
    | Some a => a
    end in
  match args with
  | ArgsDict d =>
      let '(d1, hosts, log) := for_k allow_remote d ∅ in
      if bool_decide (size hosts = 1) then
        if bool_decide (default_host ∈ hosts)
        then mkPod (Return (MutablePod d1)) (ArgsDict d1) log
        else mkPod (Return (RemoteMutablePod d1)) (ArgsDict d1) log
      else Pod_tail (ArgsDict d1) allow_remote log
  | ArgsNamespace _ => Pod_tail args allow_remote []
  end.

(** ** The loops as maps

    The host reset on one namespace, without its log record, and its
    lifting to dict values and dicts.  The loops of [Pod] are shown to
    compute these. *)
Definition reset_host (allow_remote : bool) (args : Namespace) : Namespace :=
  if negb allow_remote && bool_decide (host args ≠ default_host)
  then set_host default_host args
  else args.

Definition reset_value (allow_remote : bool) (k : value) : value :=
  match k with
  | PyNone => PyNone
  | One kk => One (reset_host allow_remote kk)
  | Many l => Many (map (reset_host allow_remote) l)
  end.

Definition reset_dict (allow_remote : bool) (d : Dict) : Dict :=
  map (fun kv => (fst kv, reset_value allow_remote (snd kv))) d.

(** The warnings the loops log for a list of visited namespaces. *)
Definition warnings (allow_remote : bool) (k : list Namespace) : list log_record :=
  concat (map (fun kk =>
                 if negb allow_remote && bool_decide (host kk ≠ default_host)
                 then [Pod_warning] else []) k).

(** What a reset may do to one namespace: [image] and the other
    attributes stay, and so does [host] when [allow_remote] is on or the
    host is the default host already. *)
Definition host_only (allow_remote : bool) (before after : Namespace) : Prop :=
  image after = image before /\
  others after = others before /\
  (allow_remote = true \/ host before = default_host -> host after = host before).

(** ** The loops compute the maps *)

Lemma warnings_app allow_remote k1 k2 :
  warnings allow_remote (k1 ++ k2) = warnings allow_remote k1 ++ warnings allow_remote k2.
Proof. unfold warnings. by rewrite map_app, concat_app. Qed.

Lemma visit_eq allow_remote kk hosts :
  visit allow_remote kk hosts =
    (reset_host allow_remote kk,
     hosts ∪ {[ host (reset_host allow_remote kk) ]},
     warnings allow_remote [kk]).
Proof.
  unfold visit, reset_host, warnings. simpl.
  destruct (negb allow_remote && bool_decide (host kk ≠ default_host)); reflexivity.
Qed.

Lemma for_kk_eq allow_remote k : forall hosts,
  for_kk allow_remote k hosts =
    (map (reset_host allow_remote) k,
     hosts ∪ list_to_set (map host (map (reset_host allow_remote) k)),
     warnings allow_remote k).
Proof.
  induction k as [|kk k IH]; intros hosts; simpl.
  - by rewrite (right_id_L ∅ (∪)).
  - rewrite visit_eq, IH.
    change (warnings allow_remote (kk :: k))
      with (warnings allow_remote ([kk] ++ k)).
    rewrite warnings_app. simpl. by rewrite (assoc_L (∪)).
Qed.

Lemma flatten_reset_value allow_remote k :
  flatten_value (reset_value allow_remote k) =
    map (reset_host allow_remote) (flatten_value k).
Proof. by destruct k. Qed.

Lemma members_reset_dict allow_remote d :
  members (reset_dict allow_remote d) = map (reset_host allow_remote) (members d).
Proof.
  unfold members, reset_dict. induction d as [|[key k] d IH]; simpl; [done|].
  by rewrite map_app, flatten_reset_value, IH.
Qed.

Lemma visit_value_eq allow_remote k hosts :
  visit_value allow_remote k hosts =
    (reset_value allow_remote k,
     hosts ∪ list_to_set (map host (flatten_value (reset_value allow_remote k))),
     warnings allow_remote (flatten_value k)).
Proof.
  destruct k as [|kk|[|kk l]]; unfold visit_value; simpl truthy_value; cbv iota.
  - simpl. by rewrite (right_id_L ∅ (∪)).
  - rewrite visit_eq. simpl. by rewrite (right_id_L ∅ (∪)).
  - simpl. by rewrite (right_id_L ∅ (∪)).
  - by rewrite for_kk_eq.
Qed.

Lemma for_k_eq allow_remote d : forall hosts,
  for_k allow_remote d hosts =
    (reset_dict allow_remote d,
     hosts ∪ host_set (reset_dict allow_remote d),
     warnings allow_remote (members d)).
Proof.
  unfold host_set, members.
  induction d as [|[key k] d IH]; intros hosts; simpl.
  - by rewrite (right_id_L ∅ (∪)).
  - rewrite visit_value_eq, IH. simpl.
    rewrite warnings_app, map_app, list_to_set_app_L, (assoc_L (∪)). reflexivity.
Qed.

(** ** Facts about the reset *)

Lemma reset_host_true args : reset_host true args = args.
Proof. reflexivity. Qed.

Lemma reset_host_default allow_remote args :
  host args = default_host -> reset_host allow_remote args = args.
Proof.
  intros Hh. unfold reset_host.
  rewrite bool_decide_eq_false_2 by (intros Hne; by apply Hne).
  by rewrite andb_false_r.
Qed.

Lemma host_reset_false args : host (reset_host false args) = default_host.
Proof.
  unfold reset_host. simpl. case_bool_decide as Hh; simpl; [done|].
  destruct (decide (host args = default_host)); [done|]. by destruct Hh.
Qed.

Lemma reset_host_idem allow_remote args :
  reset_host allow_remote (reset_host allow_remote args) = reset_host allow_remote args.
Proof.
  destruct allow_remote; [done|].
  apply reset_host_default, host_reset_false.
Qed.

Lemma image_reset_host allow_remote args :
  image (reset_host allow_remote args) = image args.
Proof. unfold reset_host. by destruct (_ && _). Qed.

Lemma others_reset_host allow_remote args :
  others (reset_host allow_remote args) = others args.
Proof. unfold reset_host. by destruct (_ && _). Qed.

Lemma map_reset_host_true k : map (reset_host true) k = k.
Proof. induction k as [|kk k IH]; simpl; [done|]. by rewrite IH. Qed.

Lemma reset_dict_true d : reset_dict true d = d.
Proof.
  unfold reset_dict. induction d as [|[key k] d IH]; simpl; [done|].
  rewrite IH. destruct k; simpl; by rewrite ?map_reset_host_true.
Qed.

Lemma warnings_true k : warnings true k = [].
Proof. unfold warnings. induction k as [|kk k IH]; simpl; done. Qed.

Lemma map_reset_host_default allow_remote k :
  Forall (fun kk => host kk = default_host) k ->
  map (reset_host allow_remote) k = k.
Proof.
  induction 1 as [|kk k Hkk _ IH]; simpl; [done|].
  by rewrite IH, reset_host_default.
Qed.

Lemma warnings_default allow_remote k :
  Forall (fun kk => host kk = default_host) k ->
  warnings allow_remote k = [].
Proof.
  unfold warnings. induction 1 as [|kk k Hkk _ IH]; simpl; [done|].
  rewrite IH, bool_decide_eq_false_2 by (intros Hne; by apply Hne).
  by rewrite andb_false_r.
Qed.

Lemma reset_dict_default allow_remote d :
  Forall (fun kk => host kk = default_host) (members d) ->
  reset_dict allow_remote d = d.
Proof.
  unfold members, reset_dict.
  induction d as [|[key k] d IH]; simpl; [done|].
  intros [Hk Hd]%Forall_app. rewrite IH by done. f_equal. f_equal.
  destruct k as [|kk|l]; simpl in *.
  - done.
  - by rewrite reset_host_default by (by inversion Hk).
  - by rewrite map_reset_host_default.
Qed.

Lemma Forall_host_reset_false k :
  Forall (fun kk => host kk = default_host) (map (reset_host false) k).
Proof.
  induction k as [|kk k IH]; simpl; constructor; [apply host_reset_false | done].
Qed.

Lemma host_set_reset_false d : host_set (reset_dict false d) ⊆ {[ default_host ]}.
Proof.
  unfold host_set. rewrite members_reset_dict.
  induction (members d) as [|kk k IH]; simpl; [apply empty_subseteq|].
  rewrite host_reset_false. by apply union_least.
Qed.

(** Members that all carry one host make a one-element host set. *)
Lemma host_set_single d h :
  members d <> [] ->
  Forall (fun kk => host kk = h) (members d) ->
  host_set d = {[ h ]}.
Proof.
  unfold host_set. intros Hne Hall.
  induction Hall as [|kk k Hkk Hall IH]; [done|]. simpl. rewrite Hkk.
  destruct k as [|kk' k]; simpl in *.
  - by rewrite (right_id_L ∅ (∪)).
  - rewrite IH by done. by rewrite (idemp_L (∪)).
Qed.

Lemma host_set_no_member d : members d = [] -> host_set d = ∅.
Proof. unfold host_set. by intros ->. Qed.

(** ** [Pod] on a dict, in one equation *)
Lemma Pod_dict_eq d allow_remote kwargs :
  Pod (Some (ArgsDict d)) allow_remote kwargs =
    let d1 := reset_dict allow_remote d in
    let log := warnings allow_remote (members d) in
    if bool_decide (size (host_set d1) = 1) then
      if bool_decide (default_host ∈ host_set d1)
      then mkPod (Return (MutablePod d1)) (ArgsDict d1) log
      else mkPod (Return (RemoteMutablePod d1)) (ArgsDict d1) log
    else mkPod (Raise (AttributeError "dict" "host")) (ArgsDict d1) log.
Proof.
  unfold Pod. rewrite for_k_eq, (left_id_L ∅ (∪)). reflexivity.
Qed.

Lemma Pod_args_dict d allow_remote kwargs :
  Pod_args (Pod (Some (ArgsDict d)) allow_remote kwargs) =
    ArgsDict (reset_dict allow_remote d).
Proof.
  rewrite Pod_dict_eq. simpl.
  repeat case_bool_decide; reflexivity.
Qed.

(** ** Groups *)

(** C1, as the code has it.  Whenever the members of a dict, as the host
    reset left them, carry two or more distinct hosts, [allow_remote] is
    on and [Pod] raises [AttributeError]: the dict falls out of the
    [len(hosts) == 1] test into the lines that read [args.host].  No
    handle is returned. *)
Theorem Pod_mixed_hosts_raises d allow_remote kwargs d1 :
  Pod_args (Pod (Some (ArgsDict d)) allow_remote kwargs) = ArgsDict d1 ->
  2 <= size (host_set d1) ->
  allow_remote = true /\
  Pod_ret (Pod (Some (ArgsDict d)) allow_remote kwargs)
    = Raise (AttributeError "dict" "host").
Proof.
  rewrite Pod_args_dict. intros [= <-] Hsize. split.
  - destruct allow_remote; [done|].
    pose proof (subseteq_size _ _ (host_set_reset_false d)) as Hle.
    rewrite size_singleton in Hle. lia.
  - rewrite Pod_dict_eq. simpl.
    rewrite bool_decide_eq_false_2 by lia. reflexivity.
Qed.

(** C4, as the code has it.  A dict without any member (every value is
    [None] or an empty list) makes [Pod] raise [AttributeError] from
    reading [args.host] on the dict; nothing is logged and the dict is
    left as it was. *)
Theorem Pod_no_member_raises d allow_remote kwargs :
  members d = [] ->
  Pod (Some (ArgsDict d)) allow_remote kwargs =
    mkPod (Raise (AttributeError "dict" "host")) (ArgsDict d) [].
Proof.
  intros Hm. rewrite Pod_dict_eq. cbv zeta.
  rewrite reset_dict_default by (rewrite Hm; constructor).
  rewrite Hm, (host_set_no_member d Hm), size_empty. reflexivity.
Qed.

(** C8.  With [allow_remote] on, a dict whose members all carry one and
    the same host, other than the default host, yields one
    [RemoteMutablePod] built from the whole dict.  The dict is handed over
    as it came and nothing is logged. *)
Theorem Pod_one_remote_host d h kwargs :
  h <> default_host ->
  members d <> [] ->
  Forall (fun kk => host kk = h) (members d) ->
  Pod (Some (ArgsDict d)) true kwargs =
    mkPod (Return (RemoteMutablePod d)) (ArgsDict d) [].
Proof.
  intros Hh Hne Hall. rewrite Pod_dict_eq. cbv zeta.
  rewrite reset_dict_true, warnings_true, (host_set_single d h Hne Hall).
  rewrite size_singleton, bool_decide_eq_true_2 by done.
  rewrite bool_decide_eq_false_2; [done|].
  intros Hin%elem_of_singleton. by apply Hh.
Qed.


(** ** Units *)

Lemma Pea_args_eq a allow_remote kwargs :
  Pea_args (Pea (Some a) allow_remote kwargs) = reset_host allow_remote a.
Proof.
  unfold Pea, reset_host. destruct allow_remote; simpl; [done|].
  by case_bool_decide.
Qed.

Lemma Pea_ret_eq a allow_remote kwargs :
  Pea_ret (Pea (Some a) allow_remote kwargs) =
    let a1 := reset_host allow_remote a in
    if bool_decide (host a1 ≠ default_host) then RemotePea a1
    else if truthy_image (image a1) then ContainerPea a1
    else BasePea a1.
Proof.
  unfold Pea, reset_host. destruct allow_remote; simpl; [done|].
  by case_bool_decide.
Qed.

Lemma Pea_log_eq a allow_remote kwargs :
  Pea_log (Pea (Some a) allow_remote kwargs) =
    if negb allow_remote && bool_decide (host a ≠ default_host)
    then [Pea_warning] else [].
Proof.
  unfold Pea. destruct allow_remote; simpl; [done|].
  by case_bool_decide.
Qed.

Lemma Pod_namespace_eq a allow_remote kwargs :
  Pod (Some (ArgsNamespace a)) allow_remote kwargs =
    let a1 := reset_host allow_remote a in
    mkPod (if bool_decide (host a1 ≠ default_host)
           then Raise (NameError "RemotePod") else Return (BasePod a1))
          (ArgsNamespace a1)
          (if negb allow_remote && bool_decide (host a ≠ default_host)
           then [Pod_warning] else []).
Proof.
  unfold Pod, Pod_tail, reset_host.
  by destruct (negb allow_remote && bool_decide (host a ≠ default_host)).
Qed.

Lemma reset_host_remote allow_remote a :
  host (reset_host allow_remote a) <> default_host ->
  allow_remote = true /\ host a <> default_host.
Proof.
  destruct allow_remote.
  - by rewrite reset_host_true.
  - by rewrite host_reset_false.
Qed.

(** C5.  When the host left by the reset is not the default host, [Pea]
    returns a [RemotePea] built from the namespace exactly as it came,
    so with its own host, whatever [image] holds; nothing is logged. *)
Theorem Pea_remote a allow_remote kwargs :
  host (Pea_args (Pea (Some a) allow_remote kwargs)) <> default_host ->
  Pea (Some a) allow_remote kwargs = mkPea (RemotePea a) a [].
Proof.
  rewrite Pea_args_eq. intros [-> Hh]%reset_host_remote.
  unfold Pea. simpl. by rewrite bool_decide_eq_true_2.
Qed.

(** C6.  When the host left by the reset is the default host, [Pea]
    returns a [ContainerPea] if [image] is set and not empty, and a
    [BasePea] if [image] is [None]; either is built from the namespace as
    the reset left it. *)
Theorem Pea_local a allow_remote kwargs :
  host (Pea_args (Pea (Some a) allow_remote kwargs)) = default_host ->
  (forall i, image a = Some i -> i <> "" ->
     Pea_ret (Pea (Some a) allow_remote kwargs)
       = ContainerPea (Pea_args (Pea (Some a) allow_remote kwargs))) /\
  (image a = None ->
     Pea_ret (Pea (Some a) allow_remote kwargs)
       = BasePea (Pea_args (Pea (Some a) allow_remote kwargs))).
Proof.
  rewrite Pea_ret_eq, Pea_args_eq. cbv zeta. intros Hh.
  rewrite bool_decide_eq_false_2 by (intros Hne; by apply Hne).
  rewrite image_reset_host. split.
  - intros i -> Hi. simpl.
    destruct (String.eqb_spec i ""); [by destruct Hi | done].
  - by intros ->.
Qed.

(** C7.  [Pea] with [allow_remote] off returns the very handle that [Pea]
    with [allow_remote] on returns for the same namespace with its host
    set to the default host beforehand; so the class is the same. *)
Theorem Pea_reset_as_prelocalized a kwargs :
  Pea_ret (Pea (Some a) false kwargs)
    = Pea_ret (Pea (Some (set_host default_host a)) true kwargs) /\
  kind_of (Pea_ret (Pea (Some a) false kwargs))
    = kind_of (Pea_ret (Pea (Some (set_host default_host a)) true kwargs)).
Proof.
  assert (reset_host false a = set_host default_host a) as Heq.
  { unfold reset_host. simpl. case_bool_decide as Hh; simpl; [done|].
    destruct (decide (host a = default_host)) as [Hd|Hd]; [|by destruct Hh].
    destruct a as [h i o]. simpl in Hd. by subst. }
  assert (Pea_ret (Pea (Some a) false kwargs)
          = Pea_ret (Pea (Some (set_host default_host a)) true kwargs)) as Hret.
  { rewrite !Pea_ret_eq. cbv zeta. by rewrite reset_host_true, Heq. }
  split; [done | by rewrite Hret].
Qed.

(** C3, amended.  With [allow_remote] off and a host other than the
    default host, each reset site assigns the default host and logs
    exactly one warning.  The text of that warning is built from the
    default host alone: it names the host the namespace is set to, not the
    one it had. *)
Theorem reset_logs_default_host a kwargs :
  host a <> default_host ->
  (Pea_args (Pea (Some a) false kwargs) = set_host default_host a /\
   Pea_log (Pea (Some a) false kwargs) =
     [warning ("setting host to " +:+ default_host
               +:+ " as allow_remote set to False")]) /\
  (Pod_args (Pod (Some (ArgsNamespace a)) false kwargs)
     = ArgsNamespace (set_host default_host a) /\
   Pod_log (Pod (Some (ArgsNamespace a)) false kwargs) =
     [warning ("host is reset to " +:+ default_host
               +:+ " as allow_remote=False")]) /\
  (forall hosts,
     visit false a hosts =
       (set_host default_host a, hosts ∪ {[ default_host ]},
        [warning ("host is reset to " +:+ default_host
                  +:+ " as allow_remote=False")])).
Proof.
  intros Hh. repeat split.
  - unfold Pea. simpl. by rewrite bool_decide_eq_true_2.
  - unfold Pea. simpl. by rewrite bool_decide_eq_true_2.
  - unfold Pod, Pod_tail. simpl. by rewrite bool_decide_eq_true_2.
  - unfold Pod, Pod_tail. simpl. by rewrite bool_decide_eq_true_2.
  - intros hosts. unfold visit. simpl. by rewrite bool_decide_eq_true_2.
Qed.

Lemma reset_dict_idem allow_remote d :
  reset_dict allow_remote (reset_dict allow_remote d) = reset_dict allow_remote d.
Proof.
  destruct allow_remote; [by rewrite !reset_dict_true|].
  apply reset_dict_default. rewrite members_reset_dict.
  apply Forall_host_reset_false.
Qed.

Lemma warnings_reset allow_remote k :
  warnings allow_remote (map (reset_host allow_remote) k) = [].
Proof.
  destruct allow_remote; [apply warnings_true|].
  apply warnings_default, Forall_host_reset_false.
Qed.

Lemma no_warning_after_reset allow_remote a :
  negb allow_remote && bool_decide (host (reset_host allow_remote a) ≠ default_host)
    = false.
Proof.
  destruct allow_remote; [done|]. simpl.
  apply bool_decide_eq_false_2. intros Hne. apply Hne, host_reset_false.
Qed.

(** C9.  Running a factory again on the namespace (or dict) that a first
    run left behind changes nothing more: the arguments stay as they
    were, the same value is returned (or the same exception raised), and
    the second run logs nothing.  This holds for [Pea] and for [Pod], and
    for either value of [allow_remote]. *)
Theorem reset_idempotent :
  (forall a allow_remote kwargs,
      let r1 := Pea (Some a) allow_remote kwargs in
      let r2 := Pea (Some (Pea_args r1)) allow_remote kwargs in
      Pea_args r2 = Pea_args r1 /\ Pea_ret r2 = Pea_ret r1 /\ Pea_log r2 = []) /\
  (forall args allow_remote kwargs,
      let r1 := Pod (Some args) allow_remote kwargs in
      let r2 := Pod (Some (Pod_args r1)) allow_remote kwargs in
      Pod_args r2 = Pod_args r1 /\ Pod_ret r2 = Pod_ret r1 /\ Pod_log r2 = []).
Proof.
  split.
  - intros a allow_remote kwargs r1 r2. subst r1 r2.
    rewrite !Pea_args_eq, !Pea_ret_eq, Pea_log_eq. cbv zeta.
    by rewrite reset_host_idem, no_warning_after_reset.
  - intros [a|d] allow_remote kwargs r1 r2; subst r1 r2.
    + rewrite (Pod_namespace_eq a). cbv zeta. simpl.
      rewrite Pod_namespace_eq. cbv zeta. simpl.
      by rewrite reset_host_idem, no_warning_after_reset.
    + rewrite Pod_args_dict, !Pod_dict_eq. cbv zeta.
      rewrite reset_dict_idem, members_reset_dict, warnings_reset.
      repeat case_bool_decide; done.
Qed.

Lemma host_only_reset allow_remote a :
  host_only allow_remote a (reset_host allow_remote a).
Proof.
  split; [apply image_reset_host|]. split; [apply others_reset_host|].
  intros [-> | Hh]; [done|]. by rewrite reset_host_default.
Qed.

(** C10.  In [Pea], in [Pod] on a namespace and in [Pod] on a dict, the
    reset leaves [image] and every other attribute of each namespace as
    they were, and leaves [host] as it was too when [allow_remote] is on
    or the host is the default host already.  A dict keeps its keys and
    its members stay in place. *)
Theorem reset_touches_host_only allow_remote kwargs :
  (forall a, host_only allow_remote a (Pea_args (Pea (Some a) allow_remote kwargs))) /\
  (forall a, exists a1,
      Pod_args (Pod (Some (ArgsNamespace a)) allow_remote kwargs) = ArgsNamespace a1 /\
      host_only allow_remote a a1) /\
  (forall d, exists d1,
      Pod_args (Pod (Some (ArgsDict d)) allow_remote kwargs) = ArgsDict d1 /\
      map fst d1 = map fst d /\
      Forall2 (host_only allow_remote) (members d) (members d1)).
Proof.
  repeat split.
  - rewrite Pea_args_eq. apply host_only_reset.
  - rewrite Pea_args_eq. apply host_only_reset.
  - rewrite Pea_args_eq. apply host_only_reset.
  - intros a. exists (reset_host allow_remote a). split.
    + by rewrite Pod_namespace_eq.
    + apply host_only_reset.
  - intros d. exists (reset_dict allow_remote d). split; [apply Pod_args_dict|].
    split.
    + unfold reset_dict. rewrite map_map. simpl. reflexivity.
    + rewrite members_reset_dict.
      induction (members d) as [|kk k IH]; simpl; constructor;
        [apply host_only_reset | done].
Qed.

(** C2, amended.  On a single namespace [Pod] resets the host as [Pea]
    does: it leaves the same namespace behind and logs a warning when [Pea]
    logs one.  When the host so left is the default host, [Pod] returns a
    plain local [BasePod] built from that namespace, whatever [image]
    holds; so with an image set it returns the local class where [Pea]
    returns a [ContainerPea]. *)
Theorem Pod_namespace_ignores_image a allow_remote kwargs :
  Pod_args (Pod (Some (ArgsNamespace a)) allow_remote kwargs)
    = ArgsNamespace (Pea_args (Pea (Some a) allow_remote kwargs)) /\
  length (Pod_log (Pod (Some (ArgsNamespace a)) allow_remote kwargs))
    = length (Pea_log (Pea (Some a) allow_remote kwargs)) /\
  (host (Pea_args (Pea (Some a) allow_remote kwargs)) = default_host ->
   Pod_ret (Pod (Some (ArgsNamespace a)) allow_remote kwargs)
     = Return (BasePod (Pea_args (Pea (Some a) allow_remote kwargs))) /\
   kind_of_outcome (Pod_ret (Pod (Some (ArgsNamespace a)) allow_remote kwargs))
     = Some LocalWorker /\
   (kind_of (Pea_ret (Pea (Some a) allow_remote kwargs)) = ContainerizedWorker \/
    kind_of (Pea_ret (Pea (Some a) allow_remote kwargs)) = LocalWorker)).
Proof.
  rewrite Pod_namespace_eq, Pea_args_eq, Pea_ret_eq, Pea_log_eq. cbv zeta. simpl.
  split; [done|]. split.
  - by destruct (negb allow_remote && bool_decide (host a ≠ default_host)).
  - intros Hh.
    rewrite !bool_decide_eq_false_2 by (intros Hne; by apply Hne).
    split; [done|]. split; [done|].
    destruct (truthy_image _); [by left | by right].
Qed.

(** ** More on groups *)

Lemma elem_of_host_set d h :
  h ∈ host_set d <-> exists kk, kk ∈ members d /\ host kk = h.
Proof.
  unfold host_set. rewrite elem_of_list_to_set, list_elem_of_fmap.
  split; intros (kk & H1 & H2); exists kk; by split.
Qed.

(** A host set has one element exactly when there is a member and all
    members carry the same host. *)
Lemma host_set_size_1 d :
  size (host_set d) = 1 <->
  exists h, members d <> [] /\ Forall (fun kk => host kk = h) (members d).
Proof.
  split.
  - intros Hsize. destruct (size_1_elem_of _ Hsize) as [h Hh].
    apply leibniz_equiv in Hh. exists h. split.
    + intros Hm. rewrite (host_set_no_member d Hm) in Hh.
      assert (h ∈ (∅ : gset string)) as Hin by (rewrite Hh; by apply elem_of_singleton).
      by apply not_elem_of_empty in Hin.
    + apply Forall_forall. intros kk Hkk.
      assert (host kk ∈ host_set d) as Hin by (apply elem_of_host_set; eauto).
      rewrite Hh in Hin. by apply elem_of_singleton in Hin.
  - intros (h & Hne & Hall). rewrite (host_set_single d h Hne Hall).
    apply size_singleton.
Qed.

Lemma members_reset_nil allow_remote d :
  members (reset_dict allow_remote d) = [] <-> members d = [].
Proof.
  rewrite members_reset_dict. split.
  - by intros ?%fmap_nil_inv.
  - by intros ->.
Qed.

(** X1.  A dict with at least one member whose members are all on the
    default host yields a [MutablePod] built from the dict as it came,
    whether [allow_remote] is on or off; nothing is logged. *)
Theorem Pod_local_dict d allow_remote kwargs :
  members d <> [] ->
  Forall (fun kk => host kk = default_host) (members d) ->
  Pod (Some (ArgsDict d)) allow_remote kwargs =
    mkPod (Return (MutablePod d)) (ArgsDict d) [].
Proof.
  intros Hne Hall. rewrite Pod_dict_eq. cbv zeta.
  rewrite reset_dict_default, warnings_default by done.
  rewrite (host_set_single d default_host Hne Hall).
  rewrite size_singleton, !bool_decide_eq_true_2; [done | | done].
  by apply elem_of_singleton.
Qed.

(** X2.  With [allow_remote] off, a dict with at least one member always
    yields a [MutablePod]: the call does not raise and never picks the
    remote class.  The pod is built from the dict after the reset, in which
    every member is on the default host and no member is lost. *)
Theorem Pod_dict_allow_remote_off d kwargs :
  members d <> [] ->
  exists d1,
    Pod_ret (Pod (Some (ArgsDict d)) false kwargs) = Return (MutablePod d1) /\
    Pod_args (Pod (Some (ArgsDict d)) false kwargs) = ArgsDict d1 /\
    Forall (fun kk => host kk = default_host) (members d1) /\
    length (members d1) = length (members d).
Proof.
  intros Hne. exists (reset_dict false d).
  assert (Forall (fun kk => host kk = default_host) (members (reset_dict false d)))
    as Hall by (rewrite members_reset_dict; apply Forall_host_reset_false).
  assert (members (reset_dict false d) <> []) as Hne1
    by (by rewrite members_reset_nil).
  rewrite Pod_dict_eq. cbv zeta.
  rewrite (host_set_single _ default_host Hne1 Hall).
  rewrite size_singleton, !bool_decide_eq_true_2; [| by apply elem_of_singleton | done].
  repeat split; [done|]. by rewrite members_reset_dict, length_map.
Qed.

Lemma length_warnings_false k :
  length (warnings false k) = length (filter (fun kk => host kk ≠ default_host) k).
Proof.
  induction k as [|kk k IH]; [done|].
  change (kk :: k) with ([kk] ++ k) at 1.
  rewrite warnings_app, length_app, IH, filter_cons.
  unfold warnings. simpl.
  destruct (decide (host kk ≠ default_host)) as [Hh|Hh].
  - by rewrite bool_decide_eq_true_2.
  - by rewrite bool_decide_eq_false_2.
Qed.

(** X3.  With [allow_remote] off, [Pod] on a dict logs one warning for each
    member that is not on the default host, and none for the others; with
    [allow_remote] on it logs nothing.  (Members are taken to be distinct
    objects.) *)
Theorem Pod_dict_warning_count d kwargs :
  length (Pod_log (Pod (Some (ArgsDict d)) false kwargs))
    = length (filter (fun kk => host kk ≠ default_host) (members d)) /\
  Pod_log (Pod (Some (ArgsDict d)) true kwargs) = [].
Proof.
  rewrite !Pod_dict_eq. cbv zeta. split.
  - rewrite <- length_warnings_false. by repeat case_bool_decide.
  - rewrite warnings_true. by repeat case_bool_decide.
Qed.

Lemma not_same_host_two k :
  k <> [] ->
  ~ (exists h, Forall (fun kk : Namespace => host kk = h) k) ->
  exists a b, a ∈ k /\ b ∈ k /\ host a <> host b.
Proof.
  destruct k as [|a k]; [done|]. intros _ Hno.
  destruct (decide (Forall (fun kk => host kk = host a) (a :: k))) as [Hall|Hall].
  - destruct Hno. by exists (host a).
  - apply not_Forall_Exists in Hall; [|intros kk; apply _].
    apply Exists_exists in Hall as (b & Hb & Hne).
    exists a, b. split; [by left|]. split; [done|].
    intros Heq. apply Hne. by rewrite Heq.
Qed.

(** X4.  [Pod] on a dict raises in exactly two situations: the dict has no
    member, or [allow_remote] is on and two members carry different
    hosts.  In every other case it returns a pod. *)
Theorem Pod_dict_raises_iff d allow_remote kwargs :
  (exists e, Pod_ret (Pod (Some (ArgsDict d)) allow_remote kwargs) = Raise e) <->
  members d = [] \/
  (allow_remote = true /\
   exists a b, a ∈ members d /\ b ∈ members d /\ host a <> host b).
Proof.
  rewrite Pod_dict_eq. cbv zeta. split.
  - intros [e He]. case_bool_decide as Hsize.
    { by case_bool_decide. }
    rewrite host_set_size_1 in Hsize.
    destruct (decide (members d = [])) as [Hm|Hm]; [by left|right].
    destruct allow_remote.
    + split; [done|]. rewrite reset_dict_true in Hsize.
      apply not_same_host_two; [done|].
      intros [h Hall]. apply Hsize. by exists h.
    + destruct Hsize. exists default_host. split.
      * by rewrite members_reset_nil.
      * rewrite members_reset_dict. apply Forall_host_reset_false.
  - intros Hcase. rewrite bool_decide_eq_false_2; [by eexists|].
    rewrite host_set_size_1. intros (h & Hne & Hall).
    destruct Hcase as [Hm | (-> & a & b & Ha & Hb & Hab)].
    + by rewrite members_reset_nil in Hne.
    + rewrite reset_dict_true in Hall.
      rewrite Forall_forall in Hall. apply Hab.
      by rewrite (Hall a Ha), (Hall b Hb).
Qed.

(** ** More on both factories *)

(** X5.  With [allow_remote] off no factory picks a remote class, whatever
    it is given, parsed keyword arguments included: [Pea] returns a
    [ContainerPea] or a [BasePea], and [Pod] returns neither a [RemotePod]
    nor a [RemoteMutablePod]. *)
Theorem allow_remote_off_never_remote kwargs :
  (forall args,
      kind_of (Pea_ret (Pea args false kwargs)) = ContainerizedWorker \/
      kind_of (Pea_ret (Pea args false kwargs)) = LocalWorker) /\
  (forall args,
      kind_of_outcome (Pod_ret (Pod args false kwargs)) <> Some RemoteWorker /\
      kind_of_outcome (Pod_ret (Pod args false kwargs))
        <> Some RemoteCoordinatedAggregate).
Proof.
  split.
  - intros args.
    assert (forall a, kind_of (Pea_ret (Pea (Some a) false kwargs)) = ContainerizedWorker \/
                      kind_of (Pea_ret (Pea (Some a) false kwargs)) = LocalWorker) as Hsome.
    { intros a. rewrite Pea_ret_eq. cbv zeta.
      rewrite bool_decide_eq_false_2
        by (intros Hne; apply Hne, host_reset_false).
      destruct (truthy_image _); [by left | by right]. }
    destruct args as [a|]; apply Hsome.
  - intros args.
    assert (forall a, kind_of_outcome (Pod_ret (Pod (Some (ArgsNamespace a)) false kwargs))
                      = Some LocalWorker) as Hns.
    { intros a. rewrite Pod_namespace_eq. cbv zeta. simpl Pod_ret.
      by rewrite bool_decide_eq_false_2
        by (intros Hne; apply Hne, host_reset_false). }
    destruct args as [[a|d]|].
    + by rewrite Hns.
    + destruct (decide (members d = [])) as [Hm|Hm].
      * rewrite Pod_dict_eq. cbv zeta.
        rewrite (host_set_no_member _ (proj2 (members_reset_nil false d) Hm)).
        by rewrite size_empty.
      * rewrite Pod_dict_eq. cbv zeta.
        rewrite (host_set_single _ default_host).
        -- rewrite size_singleton, !bool_decide_eq_true_2;
             [done | by apply elem_of_singleton | done].
        -- by rewrite members_reset_nil.
        -- rewrite members_reset_dict. apply Forall_host_reset_false.
    + change (Pod None false kwargs)
        with (Pod (Some (ArgsNamespace (get_parsed_args kwargs set_pod_parser "Pod")))
                false kwargs).
      by rewrite Hns.
Qed.

Lemma truthy_image_true i :
  truthy_image i = true -> exists s, i = Some s /\ s <> "".
Proof.
  destruct i as [s|]; [|done]. simpl. intros Hs. exists s. split; [done|].
  intros ->. done.
Qed.

Lemma truthy_image_false i :
  truthy_image i = false -> i = None \/ i = Some "".
Proof.
  destruct i as [s|]; [|by left]. simpl. intros Hs. right.
  destruct (String.eqb_spec s ""); [by subst | done].
Qed.

(** X6.  What the handle returned by [Pea] tells about the namespace it
    holds, which is the namespace the call leaves behind.  A [RemotePea]
    holds a host other than the default host and arises only with
    [allow_remote] on; a [ContainerPea] holds the default host and a
    non-empty image; a [BasePea] holds the default host and an image that is
    [None] or the empty string.  [Pea] returns no other class. *)
Theorem Pea_handle_invariant args allow_remote kwargs :
  match Pea_ret (Pea args allow_remote kwargs) with
  | RemotePea a =>
      a = Pea_args (Pea args allow_remote kwargs) /\
      allow_remote = true /\ host a <> default_host
  | ContainerPea a =>
      a = Pea_args (Pea args allow_remote kwargs) /\
      host a = default_host /\ exists s, image a = Some s /\ s <> ""
  | BasePea a =>
      a = Pea_args (Pea args allow_remote kwargs) /\
      host a = default_host /\ (image a = None \/ image a = Some "")
  | _ => False
  end.
Proof.
  assert (forall a,
    match Pea_ret (Pea (Some a) allow_remote kwargs) with
    | RemotePea a1 =>
        a1 = Pea_args (Pea (Some a) allow_remote kwargs) /\
        allow_remote = true /\ host a1 <> default_host
    | ContainerPea a1 =>
        a1 = Pea_args (Pea (Some a) allow_remote kwargs) /\
        host a1 = default_host /\ exists s, image a1 = Some s /\ s <> ""
    | BasePea a1 =>
        a1 = Pea_args (Pea (Some a) allow_remote kwargs) /\
        host a1 = default_host /\ (image a1 = None \/ image a1 = Some "")
    | _ => False
    end) as Hsome.
  { intros a. rewrite Pea_ret_eq, Pea_args_eq. cbv zeta.
    case_bool_decide as Hh.
    - split; [done|]. split; [|done]. by apply reset_host_remote in Hh as [? _].
    - assert (host (reset_host allow_remote a) = default_host) as Hd.
      { destruct (decide (host (reset_host allow_remote a) = default_host));
          [done | by destruct Hh]. }
      destruct (truthy_image _) eqn:Hi.
      + split; [done|]. split; [done|]. by apply truthy_image_true.
      + split; [done|]. split; [done|]. by apply truthy_image_false. }
  destruct args as [a|]; apply Hsome.
Qed.

(** X7.  What a handle returned by [Pod] tells.  A [MutablePod] holds a
    dict with at least one member, all on the default host.  A
    [RemoteMutablePod] arises only with [allow_remote] on and holds the
    dict exactly as it was given, with at least one member and all members
    on one host that is not the default host.  A [BasePod] holds the
    default host.  [Pod] returns nothing else: no pea class, and no
    [RemotePod] either. *)
Theorem Pod_handle_invariant args allow_remote kwargs h :
  Pod_ret (Pod args allow_remote kwargs) = Return h ->
  match h with
  | MutablePod d1 =>
      members d1 <> [] /\ Forall (fun kk => host kk = default_host) (members d1)
  | RemoteMutablePod d1 =>
      allow_remote = true /\ args = Some (ArgsDict d1) /\
      exists hh, hh <> default_host /\ members d1 <> [] /\
                 Forall (fun kk => host kk = hh) (members d1)
  | BasePod a => host a = default_host
  | RemotePod _ | RemotePea _ | ContainerPea _ | BasePea _ => False
  end.
Proof.
  assert (forall a, Pod_ret (Pod (Some (ArgsNamespace a)) allow_remote kwargs) = Return h ->
    match h with
    | BasePod a1 => host a1 = default_host
    | _ => False
    end) as Hns.
  { intros a. rewrite Pod_namespace_eq. cbv zeta. simpl Pod_ret.
    case_bool_decide as Hh; [done|]. intros [= <-].
    destruct (decide (host (reset_host allow_remote a) = default_host));
      [done | by destruct Hh]. }
  destruct args as [[a|d]|].
  - intros Hret. specialize (Hns a Hret). by destruct h.
  - rewrite Pod_dict_eq. cbv zeta.
    case_bool_decide as Hsize; [|done].
    apply host_set_size_1 in Hsize as (hh & Hne & Hall).
    assert (host_set (reset_dict allow_remote d) = {[ hh ]}) as Hset
      by (by apply host_set_single).
    rewrite Hset. case_bool_decide as Hin; intros [= <-].
    + apply elem_of_singleton in Hin. subst hh. done.
    + assert (hh <> default_host) as Hhh
        by (intros ->; apply Hin; by apply elem_of_singleton).
      destruct allow_remote.
      * rewrite reset_dict_true in *. split; [done|]. split; [done|].
        by exists hh.
      * destruct Hhh. destruct (members (reset_dict false d)) as [|kk k] eqn:Hm; [done|].
        pose proof (Forall_host_reset_false (members d)) as Hres.
        rewrite <- members_reset_dict, Hm in Hres.
        apply Forall_inv in Hall. apply Forall_inv in Hres. congruence.
  - change (Pod None allow_remote kwargs)
      with (Pod (Some (ArgsNamespace (get_parsed_args kwargs set_pod_parser "Pod")))
              allow_remote kwargs).
    intros Hret. specialize (Hns _ Hret). by destruct h.
Qed.

(** X17.  On a single namespace whose host, after the reset, is not the
    default host, [Pod] raises [NameError] for the name [RemotePod] and
    returns no handle.  This happens only with [allow_remote] on, and the
    namespace is left as it came with nothing logged.  When the host after
    the reset is the default host, [Pod] does not raise. *)
Theorem Pod_namespace_remote_raises a allow_remote kwargs :
  (host (Pea_args (Pea (Some a) allow_remote kwargs)) <> default_host ->
   allow_remote = true /\
   Pod (Some (ArgsNamespace a)) allow_remote kwargs
     = mkPod (Raise (NameError "RemotePod")) (ArgsNamespace a) []) /\
  ((exists e, Pod_ret (Pod (Some (ArgsNamespace a)) allow_remote kwargs) = Raise e) <->
   host (Pea_args (Pea (Some a) allow_remote kwargs)) <> default_host).
Proof.
  rewrite Pea_args_eq, Pod_namespace_eq. cbv zeta. simpl Pod_ret. split.
  - intros Hh. destruct (reset_host_remote _ _ Hh) as [-> Ha].
    rewrite reset_host_true. simpl.
    by rewrite bool_decide_eq_true_2.
  - case_bool_decide as Hh.
    + split; [done | by eexists].
    + split; [by intros [e He] | done].
Qed.

Lemma members_Permutation d d' : d ≡ₚ d' -> members d ≡ₚ members d'.
Proof.
  unfold members. induction 1 as [|kv d d' _ IH|kv1 kv2 d|d1 d2 d3 _ IH1 _ IH2]; simpl.
  - done.
  - by rewrite IH.
  - rewrite !(assoc_L (++)). f_equiv. apply Permutation_app_comm.
  - by rewrite IH1.
Qed.

(** X8.  The order of the items of a dict does not matter to what [Pod]
    decides: two dicts with the same items in a different order yield the
    same class of pod, or both raise. *)
Theorem Pod_dict_order_irrelevant d d' allow_remote kwargs :
  d ≡ₚ d' ->
  kind_of_outcome (Pod_ret (Pod (Some (ArgsDict d)) allow_remote kwargs))
    = kind_of_outcome (Pod_ret (Pod (Some (ArgsDict d')) allow_remote kwargs)).
Proof.
  intros Hperm.
  assert (host_set (reset_dict allow_remote d) = host_set (reset_dict allow_remote d'))
    as Hset.
  { unfold host_set. rewrite !members_reset_dict.
    apply list_to_set_perm_L. by rewrite (members_Permutation d d' Hperm). }
  rewrite !Pod_dict_eq. cbv zeta. rewrite Hset.
  by repeat case_bool_decide.
Qed.

(** X9.  For a namespace already on the default host the [allow_remote]
    flag makes no difference: [Pea] and [Pod] give the same result,
    arguments and log with the flag on and off. *)
Theorem allow_remote_irrelevant_when_local a kwargs :
  host a = default_host ->
  Pea (Some a) false kwargs = Pea (Some a) true kwargs /\
  Pod (Some (ArgsNamespace a)) false kwargs
    = Pod (Some (ArgsNamespace a)) true kwargs.
Proof.
  intros Hh. split.
  - unfold Pea. simpl.
    rewrite !bool_decide_eq_false_2 by (intros Hne; by apply Hne).
    reflexivity.
  - rewrite !Pod_namespace_eq. cbv zeta.
    rewrite reset_host_true, reset_host_default by done. simpl.
    by rewrite bool_decide_eq_false_2 by (intros Hne; by apply Hne).
Qed.

Lemma reset_host_fixed allow_remote a :
  reset_host allow_remote a = a <->
  negb allow_remote && bool_decide (host a ≠ default_host) = false.
Proof.
  unfold reset_host.
  destruct (negb allow_remote && bool_decide (host a ≠ default_host)) eqn:Hc.
  - split; [|done]. intros Heq.
    apply andb_true_iff in Hc as [_ Hne%bool_decide_eq_true_1].
    destruct Hne. by rewrite <- Heq.
  - done.
Qed.

Lemma warnings_nil_iff allow_remote k :
  warnings allow_remote k = [] <-> map (reset_host allow_remote) k = k.
Proof.
  induction k as [|kk k IH]; [done|].
  change (kk :: k) with ([kk] ++ k) at 1. rewrite warnings_app. simpl.
  split.
  - intros [H1 H2]%app_eq_nil. f_equal; [|by apply IH].
    apply reset_host_fixed. unfold warnings in H1. simpl in H1.
    by destruct (negb allow_remote && bool_decide (host kk ≠ default_host)).
  - intros [= H1 H2]. apply reset_host_fixed in H1.
    unfold warnings at 1. simpl. rewrite H1. simpl. by apply IH.
Qed.

Lemma reset_dict_fixed allow_remote d :
  reset_dict allow_remote d = d <->
  map (reset_host allow_remote) (members d) = members d.
Proof.
  split.
  - intros Heq. by rewrite <- members_reset_dict, Heq.
  - unfold members, reset_dict.
    induction d as [|[key k] d IH]; simpl; [done|].
    rewrite map_app. intros Heq.
    apply app_inj_1 in Heq as [Hk Hd]; [|by rewrite length_map].
    rewrite IH by done. f_equal. f_equal.
    destruct k as [|kk|l]; simpl in *; [done | by injection Hk as -> | by rewrite Hk].
Qed.

(** X10.  A warning is logged exactly when a host is rewritten: in [Pea]
    and in [Pod], on a namespace or a dict (of distinct members), the log of
    a call is empty if and only if the call leaves its argument as it was.  *)
Theorem log_empty_iff_unchanged allow_remote kwargs :
  (forall a,
      Pea_log (Pea (Some a) allow_remote kwargs) = [] <->
      Pea_args (Pea (Some a) allow_remote kwargs) = a) /\
  (forall args,
      Pod_log (Pod (Some args) allow_remote kwargs) = [] <->
      Pod_args (Pod (Some args) allow_remote kwargs) = args).
Proof.
  split.
  - intros a. rewrite Pea_log_eq, Pea_args_eq, reset_host_fixed.
    by destruct (negb allow_remote && bool_decide (host a ≠ default_host)).
  - intros [a|d].
    + rewrite Pod_namespace_eq. cbv zeta. simpl.
      transitivity (reset_host allow_remote a = a).
      * rewrite reset_host_fixed.
        by destruct (negb allow_remote && bool_decide (host a ≠ default_host)).
      * split; [by intros -> | by intros [= ->]].
    + rewrite Pod_args_dict.
      transitivity (reset_dict allow_remote d = d).
      * rewrite reset_dict_fixed, <- warnings_nil_iff, Pod_dict_eq. cbv zeta.
        by repeat case_bool_decide.
      * split; [by intros -> | by intros [= ->]].
Qed.

End Factories.

(** ** Concrete runs *)

Lemma Pod_mixed_hosts_raises_witness :
  true = true /\
  Pod_ret (Pod local unit parsed_defaults (Some (ArgsDict mixed_group)) true tt)
    = Raise (AttributeError "dict" "host").
Proof.
  apply (Pod_mixed_hosts_raises local unit parsed_defaults
           mixed_group true tt mixed_group).
  - vm_compute. reflexivity.
  - vm_compute. lia.
Defined.

Lemma Pod_no_member_raises_witness :
  Pod local unit parsed_defaults (Some (ArgsDict empty_group)) false tt
    = mkPod (Raise (AttributeError "dict" "host")) (ArgsDict empty_group) [].
Proof.
  apply (Pod_no_member_raises local unit parsed_defaults empty_group false tt).
  reflexivity.
Defined.

Lemma Pod_one_remote_host_witness :
  Pod local unit parsed_defaults (Some (ArgsDict remote_group)) true tt
    = mkPod (Return (RemoteMutablePod remote_group)) (ArgsDict remote_group) [].
Proof.
  apply (Pod_one_remote_host local unit parsed_defaults remote_group "10.0.0.2" tt).
  - discriminate.
  - discriminate.
  - repeat constructor.
Defined.

Lemma Pea_remote_witness :
  Pea local unit parsed_defaults (Some (unit_spec "203.0.113.5" (Some "img:v1"))) true tt
    = mkPea (RemotePea (unit_spec "203.0.113.5" (Some "img:v1")))
            (unit_spec "203.0.113.5" (Some "img:v1")) [].
Proof.
  apply (Pea_remote local unit parsed_defaults
           (unit_spec "203.0.113.5" (Some "img:v1")) true tt).
  vm_compute. discriminate.
Defined.

Lemma Pea_local_witness :
  Pea_ret (Pea local unit parsed_defaults
             (Some (unit_spec "203.0.113.5" (Some "img:v1"))) false tt)
    = ContainerPea (unit_spec local (Some "img:v1")) /\
  Pea_ret (Pea local unit parsed_defaults (Some (unit_spec local None)) true tt)
    = BasePea (unit_spec local None).
Proof.
  split.
  - apply (Pea_local local unit parsed_defaults
             (unit_spec "203.0.113.5" (Some "img:v1")) false tt
             ltac:(reflexivity)) with (i := "img:v1").
    + reflexivity.
    + discriminate.
  - apply (Pea_local local unit parsed_defaults (unit_spec local None) true tt
             ltac:(reflexivity)).
    reflexivity.
Defined.

Lemma reset_logs_default_host_witness :
  Pea_args (Pea local unit parsed_defaults (Some (unit_spec "203.0.113.5" None)) false tt)
    = unit_spec local None /\
  Pea_log (Pea local unit parsed_defaults (Some (unit_spec "203.0.113.5" None)) false tt)
    = [warning "setting host to 0.0.0.0 as allow_remote set to False"].
Proof.
  apply (reset_logs_default_host local unit parsed_defaults
           (unit_spec "203.0.113.5" None) tt).
  discriminate.
Defined.

(** C3 as the specification has it fails: the one warning logged for the
    unit with host [203.0.113.5] does not contain that host. *)
Lemma Pea_warning_lacks_original_host :
  host (unit_spec "203.0.113.5" None) <> local /\
  ~ (exists m,
        Pea_log (Pea local unit parsed_defaults
                   (Some (unit_spec "203.0.113.5" None)) false tt) = [warning m] /\
        occurs_in (host (unit_spec "203.0.113.5" None)) m).
Proof.
  split; [discriminate|].
  intros (m & Hlog & Hocc). vm_compute in Hlog. injection Hlog as <-.
  destruct Hocc as [n Hn]. vm_compute in Hn. discriminate.
Qed.

(** C2 as the specification has it fails: for a single namespace on the
    default host with an image, [Pod] returns the plain local class where
    [Pea] returns the containerized one. *)
Lemma Pod_namespace_not_containerized :
  kind_of (Pea_ret (Pea local unit parsed_defaults
                      (Some (unit_spec local (Some "img:v1"))) true tt))
    = ContainerizedWorker /\
  kind_of_outcome (Pod_ret (Pod local unit parsed_defaults
                              (Some (ArgsNamespace (unit_spec local (Some "img:v1")))) true tt))
    <> Some ContainerizedWorker /\
  kind_of_outcome (Pod_ret (Pod local unit parsed_defaults
                              (Some (ArgsNamespace (unit_spec local (Some "img:v1")))) true tt))
    <> Some (kind_of (Pea_ret (Pea local unit parsed_defaults
                                 (Some (unit_spec local (Some "img:v1"))) true tt))).
Proof.
  split; [reflexivity|]. split; vm_compute; discriminate.
Qed.

(** The scenarios of the specification that the code follows. *)

Example local_group_is_MutablePod :
  Pod_ret (Pod local unit parsed_defaults
             (Some (ArgsDict [("encoder", Many [unit_spec local None]);
                              ("indexer", Many [unit_spec local (Some "img:v1")])]))
             true tt)
    = Return (MutablePod [("encoder", Many [unit_spec local None]);
                          ("indexer", Many [unit_spec local (Some "img:v1")])]).
Proof. vm_compute. reflexivity. Qed.

Example remote_unit_localized :
  Pea local unit parsed_defaults (Some (unit_spec "203.0.113.5" None)) false tt
    = mkPea (BasePea (unit_spec local None)) (unit_spec local None)
            [warning "setting host to 0.0.0.0 as allow_remote set to False"].
Proof. reflexivity. Qed.

Example mixed_group_localized :
  Pod_ret (Pod local unit parsed_defaults (Some (ArgsDict mixed_group)) false tt)
    = Return (MutablePod
                [("encoder", Many [unit_spec local None; unit_spec local None]);
                 ("indexer", One (unit_spec local None))]).
Proof. vm_compute. reflexivity. Qed.

Example no_arguments_uses_parser :
  Pea local unit parsed_defaults None true tt
    = mkPea (BasePea (mkNamespace local None [])) (mkNamespace local None []) [].
Proof. reflexivity. Qed.

Lemma Pod_local_dict_witness :
  Pod local unit parsed_defaults (Some (ArgsDict local_group)) true tt
    = mkPod (Return (MutablePod local_group)) (ArgsDict local_group) [].
Proof.
  apply (Pod_local_dict local unit parsed_defaults local_group true tt).
  - discriminate.
  - repeat constructor.
Defined.

Lemma Pod_dict_allow_remote_off_witness :
  exists d1,
    Pod_ret (Pod local unit parsed_defaults (Some (ArgsDict mixed_group)) false tt)
      = Return (MutablePod d1) /\
    Pod_args (Pod local unit parsed_defaults (Some (ArgsDict mixed_group)) false tt)
      = ArgsDict d1 /\
    Forall (fun kk => host kk = local) (members d1) /\
    length (members d1) = length (members mixed_group).
Proof.
  apply (Pod_dict_allow_remote_off local unit parsed_defaults mixed_group tt).
  discriminate.
Defined.

Lemma Pod_handle_invariant_witness :
  true = true /\
  Some (ArgsDict remote_group) = Some (ArgsDict remote_group) /\
  exists hh, hh <> local /\ members remote_group <> [] /\
             Forall (fun kk => host kk = hh) (members remote_group).
Proof.
  apply (Pod_handle_invariant local unit parsed_defaults
           (Some (ArgsDict remote_group)) true tt (RemoteMutablePod remote_group)).
  vm_compute. reflexivity.
Defined.

Lemma Pod_dict_order_irrelevant_witness :
  kind_of_outcome
    (Pod_ret (Pod local unit parsed_defaults
                (Some (ArgsDict [("encoder", One (unit_spec "10.0.0.2" None));
                                 ("indexer", One (unit_spec local None))])) false tt))
  = kind_of_outcome
      (Pod_ret (Pod local unit parsed_defaults
                  (Some (ArgsDict [("indexer", One (unit_spec local None));
                                   ("encoder", One (unit_spec "10.0.0.2" None))])) false tt)).
Proof.
  apply (Pod_dict_order_irrelevant local unit parsed_defaults).
  apply perm_swap.
Defined.

Lemma allow_remote_irrelevant_when_local_witness :
  Pea local unit parsed_defaults (Some (unit_spec local (Some "img:v1"))) false tt
    = Pea local unit parsed_defaults (Some (unit_spec local (Some "img:v1"))) true tt /\
  Pod local unit parsed_defaults (Some (ArgsNamespace (unit_spec local (Some "img:v1")))) false tt
    = Pod local unit parsed_defaults (Some (ArgsNamespace (unit_spec local (Some "img:v1")))) true tt.
Proof.
  apply (allow_remote_irrelevant_when_local local unit parsed_defaults
           (unit_spec local (Some "img:v1")) tt).
  reflexivity.
Defined.

(** ** The event streams *)

Lemma _log_stream_Message msg gets :
  _log_stream (Message msg :: gets) =
    (data_line msg :: (_log_stream gets).1, (_log_stream gets).2).
Proof. simpl. by destruct (_log_stream gets). Qed.

Lemma _profile_stream_Message msg gets :
  _profile_stream (Message msg :: gets) =
    (data_line msg :: (_profile_stream gets).1, (_profile_stream gets).2).
Proof. simpl. by destruct (_profile_stream gets). Qed.

Lemma data_line_not_end msg :
  data_line msg <> LOG_ENDS /\ data_line msg <> PROFILE_ENDS.
Proof. split; discriminate. Qed.

(** X11.  Records that come before [EOFError] are relayed one line each,
    in the order they came, followed by the closing line; then the
    generator stops, and whatever the queue would give afterwards is never
    asked for. *)
Theorem streams_stop_on_EOFError msgs rest :
  _log_stream (map Message msgs ++ EOFError :: rest)
    = (map data_line msgs ++ [LOG_ENDS], Stopped) /\
  _profile_stream (map Message msgs ++ EOFError :: rest)
    = (map data_line msgs ++ [PROFILE_ENDS], Stopped).
Proof.
  induction msgs as [|msg msgs [IH1 IH2]]; [done|].
  change (map Message (msg :: msgs) ++ EOFError :: rest)
    with (Message msg :: (map Message msgs ++ EOFError :: rest)).
  by rewrite _log_stream_Message, _profile_stream_Message, IH1, IH2.
Qed.

(** X12.  A generator never takes back a line: what it has yielded for the
    results so far is a prefix of what it yields once more results have
    come. *)
Theorem streams_only_grow gets more :
  (_log_stream gets).1 `prefix_of` (_log_stream (gets ++ more)).1 /\
  (_profile_stream gets).1 `prefix_of` (_profile_stream (gets ++ more)).1.
Proof.
  induction gets as [|[msg| |e] gets [IH1 IH2]].
  - split; apply prefix_nil.
  - change ((Message msg :: gets) ++ more) with (Message msg :: (gets ++ more)).
    rewrite !_log_stream_Message, !_profile_stream_Message. simpl.
    split; by apply prefix_cons.
  - done.
  - done.
Qed.

(** X13.  The closing line is yielded exactly when the generator has left
    its loop on [EOFError], and then it is the last line; a generator that
    is still waiting, or that another exception went through, has yielded
    no closing line. *)
Theorem end_line_iff_stopped gets :
  ((LOG_ENDS ∈ (_log_stream gets).1 <-> (_log_stream gets).2 = Stopped) /\
   (forall i, (_log_stream gets).1 !! i = Some LOG_ENDS ->
              S i = length (_log_stream gets).1)) /\
  ((PROFILE_ENDS ∈ (_profile_stream gets).1 <-> (_profile_stream gets).2 = Stopped) /\
   (forall i, (_profile_stream gets).1 !! i = Some PROFILE_ENDS ->
              S i = length (_profile_stream gets).1)).
Proof.
  split.
  - induction gets as [|[msg| |e] gets [IH1 IH2]].
    + split; [|done]. simpl. split; [by intros ?%elem_of_nil | done].
    + rewrite _log_stream_Message. simpl. split.
      * rewrite elem_of_cons, <- IH1. split; [|by right].
        intros [Heq|Hin]; [|done].
        symmetry in Heq. by apply data_line_not_end in Heq.
      * intros [|i]; simpl.
        -- intros Heq. discriminate Heq.
        -- intros Hi. by rewrite (IH2 i Hi).
    + simpl. split; [split; [done | intros _; by left]|].
      by intros [|i].
    + simpl. split; [split; [by intros ?%elem_of_nil | done] | done].
  - induction gets as [|[msg| |e] gets [IH1 IH2]].
    + split; [|done]. simpl. split; [by intros ?%elem_of_nil | done].
    + rewrite _profile_stream_Message. simpl. split.
      * rewrite elem_of_cons, <- IH1. split; [|by right].
        intros [Heq|Hin]; [|done].
        symmetry in Heq. by apply data_line_not_end in Heq.
      * intros [|i]; simpl.
        -- intros Heq. discriminate Heq.
        -- intros Hi. by rewrite (IH2 i Hi).
    + simpl. split; [split; [done | intros _; by left]|].
      by intros [|i].
    + simpl. split; [split; [by intros ?%elem_of_nil | done] | done].
Qed.

(** X14.  A generator is still waiting for the queue exactly when every
    result so far was a record; it has then yielded one line per record, in
    order, and nothing else. *)
Theorem waiting_iff_only_records gets :
  ((_log_stream gets).2 = Blocked <->
   exists msgs, gets = map Message msgs /\
                (_log_stream gets).1 = map data_line msgs) /\
  ((_profile_stream gets).2 = Blocked <->
   exists msgs, gets = map Message msgs /\
                (_profile_stream gets).1 = map data_line msgs).
Proof.
  split.
  - induction gets as [|[msg| |e] gets IH].
    + split; [|done]. intros _. by exists [].
    + rewrite _log_stream_Message. simpl. rewrite IH. split.
      * intros (msgs & -> & Hout). exists (msg :: msgs). simpl. by rewrite Hout.
      * intros ([|m msgs] & Hg & Hout); [done|].
        simpl in Hg, Hout. injection Hg as -> ->.
        exists msgs. split; [done|]. by injection Hout.
    + simpl. split; [done|]. by intros ([|m msgs] & Hg & _).
    + simpl. split; [done|]. by intros ([|m msgs] & Hg & _).
  - induction gets as [|[msg| |e] gets IH].
    + split; [|done]. intros _. by exists [].
    + rewrite _profile_stream_Message. simpl. rewrite IH. split.
      * intros (msgs & -> & Hout). exists (msg :: msgs). simpl. by rewrite Hout.
      * intros ([|m msgs] & Hg & Hout); [done|].
        simpl in Hg, Hout. injection Hg as -> ->.
        exists msgs. split; [done|]. by injection Hout.
    + simpl. split; [done|]. by intros ([|m msgs] & Hg & _).
    + simpl. split; [done|]. by intros ([|m msgs] & Hg & _).
Qed.

(** ** The pod arguments *)

Lemma podargs_loop_snoc actions a :
  podargs_loop (actions ++ [a]) =
    if is_store a then <[dest a := podarg_of a]> (podargs_loop actions)
    else podargs_loop actions.
Proof. unfold podargs_loop. by rewrite foldl_app. Qed.

(** X15.  The entry that [get_podargs] serves under a name is built from
    the last store or store-true action of the parser with that
    destination; a name that no such action has is not served.  Actions of
    other classes never show. *)
Theorem get_podargs_lookup actions v u k :
  pod (get_podargs actions v u) !! k =
    podarg_of <$> last (filter (fun a => is_store a = true /\ dest a = k) actions).
Proof.
  simpl. induction actions as [|a actions IH] using rev_ind; [done|].
  rewrite podargs_loop_snoc, filter_app, filter_cons, filter_nil.
  destruct (is_store a) eqn:Hs.
  - destruct (decide (dest a = k)) as [<-|Hk].
    + rewrite decide_True by done. rewrite last_snoc. simpl.
      apply lookup_insert_eq.
    + rewrite decide_False by (by intros [_ ?]).
      rewrite (right_id_L [] (++)), lookup_insert_ne by done. apply IH.
  - rewrite decide_False by (by intros [? _]).
    rewrite (right_id_L [] (++)). apply IH.
Qed.

(** X16.  Every entry served for a store-true action carries a type: the
    name of the action's own type if it has one, ['bool'] otherwise.  An
    entry without a type can only come from a plain store action that has
    none. *)
Theorem get_podargs_type actions v u k e :
  pod (get_podargs actions v u) !! k = Some e ->
  exists a, a ∈ actions /\ dest a = k /\ e = podarg_of a /\
    match cls a with
    | StoreTrueAction =>
        podarg_type e = Some match type a with Some name => name | None => "bool" end
    | StoreAction => podarg_type e = type a
    | OtherAction => False
    end.
Proof.
  simpl. induction actions as [|a actions IH] using rev_ind; [done|].
  rewrite podargs_loop_snoc.
  assert (forall b, b ∈ actions -> b ∈ actions ++ [a]) as Hin
    by (intros b Hb; apply elem_of_app; by left).
  destruct (is_store a) eqn:Hs.
  - destruct (decide (dest a = k)) as [<-|Hk].
    + rewrite lookup_insert_eq. intros [= <-]. exists a.
      split; [apply elem_of_app; right; by left|]. split; [done|]. split; [done|].
      unfold is_store in Hs. unfold podarg_of. simpl.
      destruct (cls a), (type a); done.
    + rewrite lookup_insert_ne by done. intros He.
      destruct (IH He) as (b & Hb & Hrest). exists b. split; [by apply Hin | done].
  - intros He. destruct (IH He) as (b & Hb & Hrest).
    exists b. split; [by apply Hin | done].
Qed.

Lemma get_podargs_type_witness :
  exists a, a ∈ some_actions /\ dest a = "daemon" /\
    mkPodarg (Some "run as a daemon") None (Some "False") (Some "bool") = podarg_of a /\
    match cls a with
    | StoreTrueAction =>
        podarg_type (mkPodarg (Some "run as a daemon") None (Some "False") (Some "bool"))
          = Some match type a with Some name => name | None => "bool" end
    | StoreAction =>
        podarg_type (mkPodarg (Some "run as a daemon") None (Some "False") (Some "bool"))
          = type a
    | OtherAction => False
    end.
Proof.
  apply (get_podargs_type some_actions "0.1.0" "usage: jina pod" "daemon").
  vm_compute. reflexivity.
Defined.

Example get_podargs_last_wins :
  pod (get_podargs some_actions "0.1.0" "usage: jina pod") !! "host"
    = Some (mkPodarg (Some "host address of the pod") None (Some "0.0.0.0") None) /\
  pod (get_podargs some_actions "0.1.0" "usage: jina pod") !! "help" = None.
Proof. split; vm_compute; reflexivity. Qed.

Example log_stream_run :
  _log_stream [Message "ready"; Message "closing"; EOFError; Message "late"]
    = (["data: ready" +:+ LF +:+ LF; "data: closing" +:+ LF +:+ LF;
        "LOG ENDS" +:+ LF +:+ LF], Stopped).
Proof. reflexivity. Qed.

Example profile_stream_fails :
  _profile_stream [Message "t=3ms"; OtherError "BrokenPipeError"; EOFError]
    = (["data: t=3ms" +:+ LF +:+ LF], Failed "BrokenPipeError").
Proof. reflexivity. Qed.

Example Pod_remote_namespace_raises :
  Pod local unit parsed_defaults
      (Some (ArgsNamespace (unit_spec "203.0.113.5" None))) true tt
    = mkPod (Raise (NameError "RemotePod"))
            (ArgsNamespace (unit_spec "203.0.113.5" None)) [].
Proof. reflexivity. Qed.

Example Pod_remote_namespace_localized :
  Pod local unit parsed_defaults
      (Some (ArgsNamespace (unit_spec "203.0.113.5" None))) false tt
    = mkPod (Return (BasePod (unit_spec local None)))
            (ArgsNamespace (unit_spec local None))
            [warning "host is reset to 0.0.0.0 as allow_remote=False"].
Proof. reflexivity. Qed.
